(** * dualec: the backdoored Dual-EC generator and its state predictor

    A shallow embedding of [dualec.py].  Python integers are [Z]; the
    bit operators [&], [|], [<<], [>>] are [Z.land], [Z.lor], [Z.shiftl],
    [Z.shiftr]; [%] with a positive modulus is [Z.modulo].  Exceptions are
    values of an error monad.  The elliptic-curve library ([fastecdsa]) and
    the helper module [mathutil] are reached through one interface, the
    class [Provider], exactly where the Python code calls into them.

    Part I holds the definitions: the program, the vocabulary of its
    properties, and two providers to run it on.  Part II holds the
    theorems. *)

From Stdlib Require Import ZArith Lia List Bool.
Import ListNotations.

Local Open Scope Z_scope.

(** * Part I: definitions *)

(** ** Exceptions as values *)

Inductive exn : Type :=
| ValueError
| AssertionError
| OverflowError
| Exception.

Inductive result (A : Type) : Type :=
| Ok (a : A)
| Raise (e : exn).

Arguments Ok {A} a.
Arguments Raise {A} e.

Definition bind {A B : Type} (m : result A) (k : A -> result B) : result B :=
  match m with
  | Ok a => k a
  | Raise e => Raise e
  end.

Notation "x <- m ;; k" := (bind m (fun x => k))
  (at level 61, m at next level, right associativity).

(** ** Truncation helpers (dualec.py, lines 12-13 and 66-70) *)

Definition take30bytes (x : Z) : Z :=
  Z.land x (2 ^ (8 * 30) - 1).

(** In Python [-] binds tighter than [&]: the mask is [2**(8*26)-1]. *)
Definition take26bytes (next_output : Z) : Z :=
  Z.land next_output (2 ^ (8 * 26) - 1).

Definition take4MSBytes (next_output : Z) : Z :=
  Z.shiftr next_output (8 * 26).

(** ** Points and curves as [fastecdsa] exposes them

    A point carries its two integer coordinates; the library's identity
    element is the pair (0, 1).  A curve object carries the field prime [p],
    the coefficient [b], the group order [q] and the base point [G]; the
    code under study reads exactly these four attributes of [P256], and
    hard-codes the coefficient [a = -3] itself (line 39). *)

Module Point.
Record t : Type := mk { x : Z; y : Z }.

(** [Point.__eq__]: coordinate-wise comparison. *)
Definition eqb (A B : t) : bool := (x A =? x B) && (y A =? y B).

Definition IDENTITY_ELEMENT : t := mk 0 1.
End Point.

Module Curve.
Record t : Type := mk { p : Z; b : Z; q : Z; G : Point.t }.
End Curve.

(** The external collaborators of dualec.py: the curve object [P256], the
    constructor [Point(x, y, curve=P256)], which may raise, scalar
    multiplication [k * X] ([Point.__mul__] and [__rmul__], taken to return
    a point for every integer and every point), and the two functions
    imported from [mathutil]. *)
Class Provider : Type := {
  P256 : Curve.t;
  Point_init : Z -> Z -> result Point.t;
  mul : Z -> Point.t -> Point.t;
  p256_mod_sqrt : Z -> Z;
  mod_inv : Z -> Z -> result Z
}.

(** ** The functions of dualec.py *)

Section Program.
Context {prov : Provider}.

(** dualec.py, lines 30-32. *)
Definition backdoor_sanity_check (P Q : Point.t) (d : Z) : result unit :=
  if Point.eqb (mul d Q) P then Ok tt else Raise AssertionError.

(** dualec.py, lines 35-45.  [Ok None] is Python's [return None]; an
    exception of the constructor passes through. *)
Definition find_point_on_p256 (x : Z) : result (option Point.t) :=
  let y2 := (x * x * x) - (3 * x) + Curve.b P256 in
  let y2 := y2 mod Curve.p P256 in
  let y := p256_mod_sqrt y2 in
  if y2 =? (y * y) mod Curve.p P256 then
    pt <- Point_init x y ;; Ok (Some pt)
  else
    Ok None.

(** The values [randint(lo, hi)] may return: both ends are included. *)
Definition randint (lo hi d : Z) : Prop := lo <= d <= hi.

(** dualec.py, lines 48-64.  The value drawn by [randint(2, P256.q)] is the
    argument [d]; the three [print] calls are not modelled. *)
Definition gen_backdoor (d : Z) : result (Point.t * Point.t * Z) :=
  let P := Curve.G P256 in
  e <- mod_inv d (Curve.q P256) ;;
  let Q := mul e P in
  _ <- backdoor_sanity_check P Q d ;;
  Ok (P, Q, d).

(** Python's [range(n)]: the integers from 0 up, [n] of them. *)
Fixpoint count_from (start : Z) (len : nat) : list Z :=
  match len with
  | O => []
  | S len' => start :: count_from (start + 1) len'
  end.

Definition range (n : Z) : list Z := count_from 0 (Z.to_nat n).

(** One iteration of the loop of [gen_prediction] (lines 78-94):
    [Ok (Some v)] is [return v], [Ok None] falls through to the next
    iteration. *)
Definition try_high_bits (observed1 observed2 : Z) (Q : Point.t) (d : Z)
    (high_bits : Z) : result (option Z) :=
  let guess := Z.lor (Z.shiftl high_bits (8 * 30)) observed1 in
  point <- find_point_on_p256 guess ;;
  match point with
  | Some point =>
      let state := Point.x (mul d point) in
      let next_output := take30bytes (Point.x (mul state Q)) in
      if take4MSBytes next_output =? observed2
      then Ok (Some (take26bytes next_output))
      else Ok None
  | None => Ok None
  end.

(** A [for] loop with early [return]: [Ok None] when the loop runs off its
    end. *)
Fixpoint for_loop {A : Type} (body : Z -> result (option A)) (items : list Z)
    : result (option A) :=
  match items with
  | [] => Ok None
  | i :: rest =>
      r <- body i ;;
      match r with
      | Some v => Ok (Some v)
      | None => for_loop body rest
      end
  end.

(** dualec.py, lines 72-96.  The argument [P] is not used, as in the
    source. *)
Definition gen_prediction (observed1 observed2 : Z) (P Q : Point.t) (d : Z)
    : result Z :=
  r <- for_loop (try_high_bits observed1 observed2 Q d) (range (2 ^ 16)) ;;
  match r with
  | Some v => Ok v
  | None => Raise ValueError
  end.

End Program.

(** ** The generator (dualec.py, lines 15-27)

    The object's three attributes are a record; [genbits] returns the
    updated object together with the value the method returns. *)

Module DualEC.
Record t : Type := mk { seed : Z; P : Point.t; Q : Point.t }.

Section Methods.
Context {prov : Provider}.

Definition genbits (self : t) : t * Z :=
  let t := seed self in
  let s := Point.x (mul t (P self)) in
  let self := mk s (P self) (Q self) in
  let r := Point.x (mul s (Q self)) in
  (self, take30bytes r).

(** [n] successive calls on one object: the final object and the values
    returned, in call order. *)
Fixpoint run (n : nat) (self : t) : t * list Z :=
  match n with
  | O => (self, [])
  | S k =>
      let (self1, bits) := genbits self in
      let (self2, rest) := run k self1 in
      (self2, bits :: rest)
  end.

End Methods.
End DualEC.

(** dualec.py, lines 99-122: the driver, with the two random draws [d] and
    [seed] as arguments; it yields the predicted and the actual 26 bytes. *)
Definition main {prov : Provider} (d seed : Z) : result (Z * Z) :=
  t <- gen_backdoor d ;;
  let '(P, Q, d) := t in
  let dualec := DualEC.mk seed P Q in
  let (dualec, bits1) := DualEC.genbits dualec in
  let (dualec, bits2) := DualEC.genbits dualec in
  let observed1 := bits1 in
  let observed2 := Z.shiftr bits2 (26 * 8) in
  predicted <- gen_prediction observed1 observed2 P Q d ;;
  let actual := Z.land bits2 (2 ^ (8 * 26) - 1) in
  Ok (predicted, actual).

(** ** The vocabulary of the properties *)

Section Vocabulary.
Context {prov : Provider}.

(** The congruence [y^2 = x^3 - 3x + b (mod p)]. *)
Definition curve_equation (pt : Point.t) : Prop :=
  (Point.y pt * Point.y pt) mod Curve.p P256
  = (Point.x pt * Point.x pt * Point.x pt - 3 * Point.x pt + Curve.b P256)
      mod Curve.p P256.

(** The quantity whose square root is taken, and the root the provider
    returns for it. *)
Definition rhs (x : Z) : Z :=
  (x * x * x - 3 * x + Curve.b P256) mod Curve.p P256.

Definition root (x : Z) : Z := p256_mod_sqrt (rhs x).

(** The candidate value for the full first output. *)
Definition guess_of (observed1 high_bits : Z) : Z :=
  Z.lor (Z.shiftl high_bits (8 * 30)) observed1.

(** The next 30-byte output the predictor computes from a candidate point. *)
Definition predicted_output (Q : Point.t) (d : Z) (point : Point.t) : Z :=
  take30bytes (Point.x (mul (Point.x (mul d point)) Q)).

Definition candidate_point (observed1 high_bits : Z) : Point.t :=
  Point.mk (guess_of observed1 high_bits) (root (guess_of observed1 high_bits)).




(** What one iteration of the search does with [high_bits]: it accepts it
    with the value [v] when a point is found and the top four bytes of the
    output predicted from it are the observed ones; it rejects it when no
    point is found or those bytes differ. *)
Definition accepted (observed1 observed2 : Z) (Q : Point.t) (d high_bits v : Z) : Prop :=
  exists point,
    find_point_on_p256 (guess_of observed1 high_bits) = Ok (Some point)
    /\ take4MSBytes (predicted_output Q d point) = observed2
    /\ v = take26bytes (predicted_output Q d point).

Definition rejected (observed1 observed2 : Z) (Q : Point.t) (d high_bits : Z) : Prop :=
  find_point_on_p256 (guess_of observed1 high_bits) = Ok None
  \/ exists point,
       find_point_on_p256 (guess_of observed1 high_bits) = Ok (Some point)
       /\ take4MSBytes (predicted_output Q d point) <> observed2.

(** The successive seeds and outputs, written without the object: the next
    seed and the value returned are functions of the seed and the points. *)
Definition next_seed (P : Point.t) (seed : Z) : Z := Point.x (mul seed P).

Definition output_of (Q : Point.t) (s : Z) : Z := take30bytes (Point.x (mul s Q)).

Fixpoint output_stream (n : nat) (seed : Z) (P Q : Point.t) : list Z :=
  match n with
  | O => []
  | S k =>
      let s := next_seed P seed in
      output_of Q s :: output_stream k s P Q
  end.

(** The provider returns reduced coordinates: every x-coordinate it
    computes is a residue modulo the field prime. *)
Definition reduced_x : Prop :=
  forall (k : Z) (X : Point.t), 0 <= Point.x (mul k X) < Curve.p P256.

(** An affine point of the curve with reduced coordinates. *)
Definition valid (X : Point.t) : Prop :=
  0 <= Point.x X < Curve.p P256
  /\ 0 <= Point.y X < Curve.p P256
  /\ curve_equation X.

(** What the search needs of the constructor and of the square root on the
    values it feeds them: the root is a residue modulo the field prime; a
    pair that fits 32 bytes and satisfies the curve equation is accepted;
    a reduced pair is kept as given; and whatever point is returned
    satisfies the curve equation. *)
Class ConstructorLaws : Prop := {
  sqrt_reduced : forall a, 0 <= p256_mod_sqrt a < Curve.p P256;
  init_accepts : forall x y,
    0 <= x < 2 ^ 256 -> 0 <= y < Curve.p P256 ->
    (y * y) mod Curve.p P256 = rhs x ->
    exists pt, Point_init x y = Ok pt;
  init_reduced : forall x y,
    0 <= x < Curve.p P256 -> 0 <= y < Curve.p P256 ->
    (y * y) mod Curve.p P256 = rhs x ->
    Point_init x y = Ok (Point.mk x y);
  init_on_curve : forall x y pt, Point_init x y = Ok pt -> curve_equation pt
}.

(** What the program needs of a correct provider for the curve: the points
    of the curve form a group on which integers act, two points with one
    x-coordinate are each other's opposite, and the two [mathutil]
    functions compute what their names say. *)
Class Lawful : Prop := {
  constructor_laws :: ConstructorLaws;
  field_width : 0 < Curve.p P256 <= 2 ^ 256;
  base_valid : valid (Curve.G P256);
  identity_invalid : ~ valid Point.IDENTITY_ELEMENT;
  mul_closed : forall k X,
    valid X -> valid (mul k X) \/ mul k X = Point.IDENTITY_ELEMENT;
  mul_identity : forall k,
    mul k Point.IDENTITY_ELEMENT = Point.IDENTITY_ELEMENT;
  mul_one : forall X, valid X -> mul 1 X = X;
  mul_mul : forall a b X, valid X -> mul a (mul b X) = mul (a * b) X;
  mul_mod_order : forall k X, valid X -> mul (k mod Curve.q P256) X = mul k X;
  mul_same_x : forall k X Y,
    valid X -> valid Y -> Point.x X = Point.x Y ->
    Point.x (mul k X) = Point.x (mul k Y);
  sqrt_of_square : forall y,
    0 <= p256_mod_sqrt ((y * y) mod Curve.p P256) < Curve.p P256
    /\ (p256_mod_sqrt ((y * y) mod Curve.p P256)
        * p256_mod_sqrt ((y * y) mod Curve.p P256)) mod Curve.p P256
       = (y * y) mod Curve.p P256;
  mod_inv_inverse : forall d,
    Z.gcd d (Curve.q P256) = 1 ->
    exists e, mod_inv d (Curve.q P256) = Ok e /\ (d * e) mod Curve.q P256 = 1
}.

End Vocabulary.

(** ** A reference provider

    Affine arithmetic on [y^2 = x^3 - 3x + b] over the integers modulo [p],
    for any curve record: what a correct library computes for [k * X].  As
    in [fastecdsa], the scalar is first reduced modulo the order [q]. *)

Module Reference.
Section Arithmetic.
Variable c : Curve.t.

(** Square-and-multiply, by recursion on the binary exponent. *)
Fixpoint pow_mod (a : Z) (e : positive) (m : Z) : Z :=
  match e with
  | xH => a mod m
  | xO e' => let t := pow_mod a e' m in (t * t) mod m
  | xI e' => let t := pow_mod a e' m in ((t * t) mod m * a) mod m
  end.

Definition power_mod (a e m : Z) : Z :=
  match e with
  | Zpos e' => pow_mod a e' m
  | _ => 1 mod m
  end.

(** Inverse in the field, by Fermat's little theorem. *)
Definition field_inv (a : Z) : Z := power_mod a (Curve.p c - 2) (Curve.p c).

Definition normalize (X : Point.t) : Point.t :=
  Point.mk (Point.x X mod Curve.p c) (Point.y X mod Curve.p c).

Definition is_identity (X : Point.t) : bool := Point.eqb X Point.IDENTITY_ELEMENT.

Definition double (X : Point.t) : Point.t :=
  let p := Curve.p c in
  if is_identity X || (Point.y X =? 0) then Point.IDENTITY_ELEMENT
  else
    let l := ((3 * Point.x X * Point.x X - 3) * field_inv (2 * Point.y X)) mod p in
    let x3 := (l * l - 2 * Point.x X) mod p in
    Point.mk x3 ((l * (Point.x X - x3) - Point.y X) mod p).

Definition add (X Y : Point.t) : Point.t :=
  let p := Curve.p c in
  if is_identity X then Y
  else if is_identity Y then X
  else if Point.x X =? Point.x Y then
    if Point.y X =? Point.y Y then double X else Point.IDENTITY_ELEMENT
  else
    let l := ((Point.y Y - Point.y X) * field_inv (Point.x Y - Point.x X)) mod p in
    let x3 := (l * l - Point.x X - Point.x Y) mod p in
    Point.mk x3 ((l * (Point.x X - x3) - Point.y X) mod p).

(** Double-and-add, by recursion on the binary scalar. *)
Fixpoint mul_pos (k : positive) (X : Point.t) : Point.t :=
  match k with
  | xH => X
  | xO k' => double (mul_pos k' X)
  | xI k' => add X (double (mul_pos k' X))
  end.

Definition mul (k : Z) (X : Point.t) : Point.t :=
  match k mod Curve.q c with
  | Zpos k' => mul_pos k' (normalize X)
  | _ => Point.IDENTITY_ELEMENT
  end.

(** The constructor of the library, [Point(x, y, curve=P256)]: a
    coordinate that is negative or does not fit 32 bytes overflows, a pair
    off the curve is refused with [ValueError], and the coordinates of the
    point built are residues modulo the field prime. *)
Definition is_point_on_curve (x y : Z) : bool :=
  (y * y - (x * x * x - 3 * x + Curve.b c)) mod Curve.p c =? 0.

Definition point_init (x y : Z) : result Point.t :=
  if (0 <=? x) && (x <? 2 ^ 256) && (0 <=? y) && (y <? 2 ^ 256) then
    if is_point_on_curve x y
    then Ok (Point.mk (x mod Curve.p c) (y mod Curve.p c))
    else Raise ValueError
  else Raise OverflowError.

(** Modelled from the spec: [mathutil.p256_mod_sqrt] is not among the
    sources.  The spec describes a closed-form square root for a field prime
    congruent to 3 modulo 4, whose result the caller must check by squaring:
    that is [a ^ ((p + 1) / 4) mod p]. *)
Definition mod_sqrt (a : Z) : Z :=
  power_mod a ((Curve.p c + 1) / 4) (Curve.p c).

(** Extended Euclid: the gcd of the two remainders and the coefficient of
    the first one. *)
Fixpoint egcd (fuel : nat) (r0 s0 r1 s1 : Z) : Z * Z :=
  match fuel with
  | O => (r0, s0)
  | S fuel' =>
      if r1 =? 0 then (r0, s0)
      else egcd fuel' r1 s1 (r0 mod r1) (s0 - (r0 / r1) * s1)
  end.

(** Modelled from the spec: [mathutil.mod_inv] is not among the sources.
    The spec says it returns the inverse of [a] modulo [m] and fails when
    [a] and [m] are not coprime. *)
Definition mod_inv (a m : Z) : result Z :=
  let (g, s) := egcd (S (2 * Z.to_nat (Z.log2_up m))) (a mod m) 1 m 0 in
  if g =? 1 then Ok (s mod m) else Raise Exception.

Definition provider_with (inv : Z -> Z -> result Z) : Provider :=
  Build_Provider c point_init mul mod_sqrt inv.

Definition provider : Provider := provider_with mod_inv.

End Arithmetic.
End Reference.

(** ** The curve NIST P-256, the value of [fastecdsa.curve.P256] *)

Module NistP256.

Definition p : Z := 0xffffffff00000001000000000000000000000000ffffffffffffffffffffffff.
Definition b : Z := 0x5ac635d8aa3a93e7b3ebbd55769886bc651d06b0cc53b0f63bce3c3e27d2604b.
Definition q : Z := 0xffffffff00000000ffffffffffffffffbce6faada7179e84f3b9cac2fc632551.
Definition gx : Z := 0x6b17d1f2e12c4247f8bce6e563a440f277037d812deb33a0f4a13945d898c296.
Definition gy : Z := 0x4fe342e2fe1a7f9b8ee7eb4a7c0f9e162bce33576b315ececbb6406837bf51f5.

Definition G : Point.t := Point.mk gx gy.

Definition curve : Curve.t := Curve.mk p b q G.

Definition provider : Provider := Reference.provider curve.

(** The same provider with any behaviour whatsoever for [mod_inv]. *)
Definition provider_with (inv : Z -> Z -> result Z) : Provider :=
  Reference.provider_with curve inv.

End NistP256.

(** ** A small curve on which the laws can be checked exhaustively

    [y^2 = x^3 - 3x + 6] over the integers modulo 7 has 11 points, the
    identity included; (1, 2) generates them.  The reference provider over
    this curve obeys every law of [Lawful]: each is checked on all residues
    and all points. *)

Module Toy.

Definition P : Point.t := Point.mk 1 2.

Definition curve : Curve.t := Curve.mk 7 6 11 P.

(** [4 * P], the second point of the backdoor for [d = 3]. *)
Definition Q : Point.t := Point.mk 6 6.

Definition provider : Provider := Reference.provider curve.

Definition tmul : Z -> Point.t -> Point.t := Reference.mul curve.

Definition validb (X : Point.t) : bool :=
  (0 <=? Point.x X) && (Point.x X <? 7) && (0 <=? Point.y X) && (Point.y X <? 7)
  && ((Point.y X * Point.y X) mod 7
      =? (Point.x X * Point.x X * Point.x X - 3 * Point.x X + 6) mod 7).

(** [f] holds of every pair of residues modulo 7 that is a point of the
    curve. *)
Definition all_points (f : Point.t -> bool) : bool :=
  forallb (fun x => forallb (fun y =>
    implb (validb (Point.mk x y)) (f (Point.mk x y))) (range 7)) (range 7).

Definition all_scalars (f : Z -> bool) : bool := forallb f (range 11).

End Toy.

(** * Part II: theorems *)

(** ** Masks and truncation *)

Lemma mask_is_ones (n : Z) : 2 ^ n - 1 = Z.ones n.
Proof. rewrite Z.ones_equiv. lia. Qed.

Lemma land_mask_mod (x n : Z) : 0 <= n -> Z.land x (2 ^ n - 1) = x mod 2 ^ n.
Proof. intros Hn. rewrite mask_is_ones. now apply Z.land_ones. Qed.

Lemma land_mask_range (x n : Z) : 0 <= n -> 0 <= Z.land x (2 ^ n - 1) < 2 ^ n.
Proof.
  intros Hn. rewrite land_mask_mod by assumption.
  apply Z.mod_pos_bound. now apply Z.pow_pos_nonneg.
Qed.

Lemma take30bytes_mod (x : Z) : take30bytes x = x mod 2 ^ 240.
Proof. unfold take30bytes. now rewrite land_mask_mod. Qed.

Lemma take30bytes_range (x : Z) : 0 <= take30bytes x < 2 ^ 240.
Proof. unfold take30bytes. now apply land_mask_range. Qed.

Lemma take26bytes_mod (x : Z) : take26bytes x = x mod 2 ^ 208.
Proof. unfold take26bytes. now rewrite land_mask_mod. Qed.

Lemma take4MSBytes_div (x : Z) : take4MSBytes x = x / 2 ^ 208.
Proof. unfold take4MSBytes. now rewrite Z.shiftr_div_pow2. Qed.

Lemma take30bytes_small (x : Z) : 0 <= x < 2 ^ 240 -> take30bytes x = x.
Proof. intros Hx. rewrite take30bytes_mod. now apply Z.mod_small. Qed.

(** C10. For every [x] with [0 <= x < 2^240], gluing the top four bytes back
    above the low twenty-six gives [x] again, the low part is below [2^208]
    and the top part is below [2^32]: the observed and the predicted bytes
    partition a 30-byte output. *)
Theorem truncation_decomposition (x : Z) :
  0 <= x < 2 ^ 240 ->
  Z.lor (Z.shiftl (take4MSBytes x) 208) (take26bytes x) = x
  /\ 0 <= take26bytes x < 2 ^ 208
  /\ 0 <= take4MSBytes x < 2 ^ 32.
Proof.
  intros [Hlo Hhi].
  assert (Hpow : (2 ^ 240 = 2 ^ 208 * 2 ^ 32)) by (rewrite <- Z.pow_add_r; [reflexivity | lia | lia]).
  assert (H208 : 0 < 2 ^ 208) by (apply Z.pow_pos_nonneg; lia).
  split; [| split].
  - rewrite take4MSBytes_div, take26bytes_mod.
    rewrite Z.shiftl_mul_pow2 by lia.
    rewrite <- Z.shiftl_mul_pow2, <- Z.shiftr_div_pow2 by lia.
    rewrite <- Z.ldiff_ones_r by lia.
    rewrite <- Z.land_ones by lia.
    apply Z.lor_ldiff_and.
  - unfold take26bytes. apply land_mask_range. lia.
  - rewrite take4MSBytes_div. split.
    + apply Z.div_pos; lia.
    + apply Z.div_lt_upper_bound; [assumption | lia].
Qed.

Lemma truncation_decomposition_witness :
  let x := 2 ^ 239 + 2 ^ 208 + 5 in
  Z.lor (Z.shiftl (take4MSBytes x) 208) (take26bytes x) = x
  /\ 0 <= take26bytes x < 2 ^ 208
  /\ 0 <= take4MSBytes x < 2 ^ 32.
Proof.
  apply (truncation_decomposition (2 ^ 239 + 2 ^ 208 + 5)).
  vm_compute. split; [discriminate | reflexivity].
Defined.

Lemma Point_eqb_eq (A B : Point.t) : Point.eqb A B = true <-> A = B.
Proof.
  unfold Point.eqb. rewrite andb_true_iff, !Z.eqb_eq.
  destruct A, B; cbn. split; [intros [-> ->]; reflexivity | intros [= -> ->]; now split].
Qed.

(** [range n] lists [0, 1, ..., n-1] in increasing order. *)
Lemma count_from_seq (len s : nat) :
  count_from (Z.of_nat s) len = map Z.of_nat (seq s len).
Proof.
  revert s. induction len as [| len IH]; intros s; cbn [count_from seq map];
    [reflexivity |].
  f_equal. rewrite <- IH. f_equal. lia.
Qed.

Lemma range_seq (n : Z) : range n = map Z.of_nat (seq 0 (Z.to_nat n)).
Proof. unfold range. exact (count_from_seq (Z.to_nat n) 0). Qed.

Lemma range_length (n : Z) : 0 <= n -> Z.of_nat (length (range n)) = n.
Proof.
  intros Hn. rewrite range_seq, length_map, length_seq. lia.
Qed.

Lemma range_nth_error (n : Z) (k : nat) :
  Z.of_nat k < n -> nth_error (range n) k = Some (Z.of_nat k).
Proof.
  intros Hk. rewrite range_seq.
  rewrite nth_error_map, nth_error_seq.
  destruct (Nat.ltb_spec k (Z.to_nat n)); [reflexivity | lia].
Qed.

Lemma In_range (n i : Z) : In i (range n) <-> 0 <= i < n.
Proof.
  rewrite range_seq, in_map_iff. split.
  - intros (k & <- & Hk). apply in_seq in Hk. lia.
  - intros Hi. exists (Z.to_nat i). split; [lia |]. apply in_seq. lia.
Qed.

Lemma forallb_range (n : Z) (f : Z -> bool) :
  forallb f (range n) = true -> forall i, 0 <= i < n -> f i = true.
Proof.
  intros H i Hi. rewrite forallb_forall in H. apply H.
  exact (proj2 (In_range n i) Hi).
Qed.

(** ** The loop with early return *)

(** The loop over consecutive integers returns at the first index whose body
    returns, provided no body raises before it. *)
Lemma for_loop_seq_found {A : Type} (body : Z -> result (option A)) (len s : nat) (v : A) :
  for_loop body (map Z.of_nat (seq s len)) = Ok (Some v) <->
  exists k, (s <= k < s + len)%nat
    /\ body (Z.of_nat k) = Ok (Some v)
    /\ forall j, (s <= j < k)%nat -> body (Z.of_nat j) = Ok None.
Proof.
  revert s. induction len as [| len IH]; intros s; cbn [seq map for_loop].
  - split; [discriminate |]. intros (k & Hk & _). lia.
  - destruct (body (Z.of_nat s)) as [[w |] | e] eqn:Hs; cbn [bind].
    + split.
      * intros [= ->]. exists s. repeat split; [lia | lia | assumption |].
        intros j Hj. lia.
      * intros (k & Hk & Hv & Hbefore).
        destruct (Nat.eq_dec k s) as [-> | Hne]; [congruence |].
        specialize (Hbefore s ltac:(lia)). congruence.
    + rewrite IH. split.
      * intros (k & Hk & Hv & Hbefore). exists k. repeat split; try lia; [assumption |].
        intros j Hj. destruct (Nat.eq_dec j s) as [-> | Hne]; [assumption |].
        apply Hbefore. lia.
      * intros (k & Hk & Hv & Hbefore).
        assert (k <> s) by congruence.
        exists k. repeat split; try lia; [assumption |].
        intros j Hj. apply Hbefore. lia.
    + split; [discriminate |]. intros (k & Hk & Hv & Hbefore).
      destruct (Nat.eq_dec k s) as [-> | Hne]; [congruence |].
      specialize (Hbefore s ltac:(lia)). congruence.
Qed.

Lemma for_loop_exhausted {A : Type} (body : Z -> result (option A)) (items : list Z) :
  for_loop body items = Ok None <-> forall i, In i items -> body i = Ok None.
Proof.
  induction items as [| i rest IH]; cbn [for_loop].
  - split; [intros _ i [] | reflexivity].
  - destruct (body i) as [[w |] | e] eqn:Hi; cbn [bind].
    + split; [discriminate |]. intros H. specialize (H i (or_introl eq_refl)). congruence.
    + rewrite IH. split.
      * intros H j [<- | Hj]; [assumption | now apply H].
      * intros H j Hj. apply H. now right.
    + split; [discriminate |]. intros H. specialize (H i (or_introl eq_refl)). congruence.
Qed.

Lemma for_loop_raises {A : Type} (body : Z -> result (option A)) (items : list Z) (e : exn) :
  for_loop body items = Raise e -> exists i, In i items /\ body i = Raise e.
Proof.
  induction items as [| i rest IH]; cbn [for_loop]; [discriminate |].
  destruct (body i) as [[w |] | e'] eqn:Hi; cbn [bind].
  - discriminate.
  - intros H. destruct (IH H) as (j & Hj & Hr). exists j. split; [now right | assumption].
  - intros [= ->]. exists i. split; [now left | assumption].
Qed.

(** ** Properties that hold for every provider *)

Section Generic.
Context {prov : Provider}.

(** *** The curve-membership test *)

Lemma find_point_on_p256_unfold (x : Z) :
  find_point_on_p256 x =
  if rhs x =? (root x * root x) mod Curve.p P256
  then pt <- Point_init x (root x) ;; Ok (Some pt)
  else Ok None.
Proof. reflexivity. Qed.

Lemma rhs_periodic (x k : Z) : rhs (x + k * Curve.p P256) = rhs x.
Proof.
  unfold rhs.
  replace ((x + k * Curve.p P256) * (x + k * Curve.p P256) * (x + k * Curve.p P256)
           - 3 * (x + k * Curve.p P256) + Curve.b P256)
    with (x * x * x - 3 * x + Curve.b P256
          + (k * (3 * x * x + 3 * x * (k * Curve.p P256)
                  + k * Curve.p P256 * (k * Curve.p P256)) - 3 * k) * Curve.p P256)
    by ring.
  apply Z_mod_plus_full.
Qed.

Lemma find_point_on_p256_none (x : Z) :
  find_point_on_p256 x = Ok None
  <-> (root x * root x) mod Curve.p P256 <> rhs x.
Proof.
  rewrite find_point_on_p256_unfold.
  destruct (Z.eqb_spec (rhs x) ((root x * root x) mod Curve.p P256)) as [E | N].
  - split; [| intros N; symmetry in E; contradiction].
    destruct (Point_init x (root x)); discriminate.
  - split; [intros _ E; symmetry in E; contradiction | reflexivity].
Qed.

Lemma find_point_on_p256_some (x : Z) (pt : Point.t) :
  find_point_on_p256 x = Ok (Some pt)
  <-> (root x * root x) mod Curve.p P256 = rhs x
      /\ Point_init x (root x) = Ok pt.
Proof.
  rewrite find_point_on_p256_unfold.
  destruct (Z.eqb_spec (rhs x) ((root x * root x) mod Curve.p P256)) as [E | N].
  - destruct (Point_init x (root x)) as [pt' | e]; cbn [bind]; split.
    + intros [= ->]. now split.
    + intros [_ [= ->]]. reflexivity.
    + discriminate.
    + intros [_ H]. discriminate H.
  - split; [discriminate |]. intros [E _]. symmetry in E. contradiction.
Qed.

Lemma find_point_on_p256_raise (x : Z) (e : exn) :
  find_point_on_p256 x = Raise e
  <-> (root x * root x) mod Curve.p P256 = rhs x
      /\ Point_init x (root x) = Raise e.
Proof.
  rewrite find_point_on_p256_unfold.
  destruct (Z.eqb_spec (rhs x) ((root x * root x) mod Curve.p P256)) as [E | N].
  - destruct (Point_init x (root x)) as [pt' | e']; cbn [bind]; split.
    + discriminate.
    + intros [_ H]. discriminate H.
    + intros [= ->]. now split.
    + intros [_ [= ->]]. reflexivity.
  - split; [discriminate |]. intros [E _]. symmetry in E. contradiction.
Qed.

(** *** The search *)

Lemma try_high_bits_some (observed1 observed2 : Z) (Q : Point.t) (d high_bits v : Z) :
  try_high_bits observed1 observed2 Q d high_bits = Ok (Some v)
  <-> accepted observed1 observed2 Q d high_bits v.
Proof.
  unfold try_high_bits, accepted. fold (guess_of observed1 high_bits).
  destruct (find_point_on_p256 (guess_of observed1 high_bits)) as [[pt |] | e];
    cbn [bind].
  - fold (predicted_output Q d pt).
    destruct (Z.eqb_spec (take4MSBytes (predicted_output Q d pt)) observed2) as [E | N].
    + split.
      * intros [= <-]. now exists pt.
      * intros (point & [= <-] & _ & ->). reflexivity.
    + split; [discriminate |]. intros (point & [= <-] & E & _). contradiction.
  - split; [discriminate |]. intros (point & H & _). discriminate H.
  - split; [discriminate |]. intros (point & H & _). discriminate H.
Qed.

Lemma try_high_bits_none (observed1 observed2 : Z) (Q : Point.t) (d high_bits : Z) :
  try_high_bits observed1 observed2 Q d high_bits = Ok None
  <-> rejected observed1 observed2 Q d high_bits.
Proof.
  unfold try_high_bits, rejected. fold (guess_of observed1 high_bits).
  destruct (find_point_on_p256 (guess_of observed1 high_bits)) as [[pt |] | e];
    cbn [bind].
  - fold (predicted_output Q d pt).
    destruct (Z.eqb_spec (take4MSBytes (predicted_output Q d pt)) observed2) as [E | N].
    + split; [discriminate |].
      intros [H | (point & [= <-] & N)]; [discriminate H | contradiction].
    + split; [| reflexivity]. intros _. right. now exists pt.
  - split; [now left | reflexivity].
  - split; [discriminate |].
    intros [H | (point & H & _)]; discriminate H.
Qed.

Lemma try_high_bits_raise (observed1 observed2 : Z) (Q : Point.t) (d high_bits : Z)
    (e : exn) :
  try_high_bits observed1 observed2 Q d high_bits = Raise e
  <-> find_point_on_p256 (guess_of observed1 high_bits) = Raise e.
Proof.
  unfold try_high_bits. fold (guess_of observed1 high_bits).
  destruct (find_point_on_p256 (guess_of observed1 high_bits)) as [[pt |] | e'];
    cbn [bind].
  - destruct (_ =? observed2); split; discriminate.
  - split; discriminate.
  - split; intros [= ->]; reflexivity.
Qed.

Lemma gen_prediction_unfold (observed1 observed2 : Z) (P Q : Point.t) (d : Z) :
  gen_prediction observed1 observed2 P Q d =
  match for_loop (try_high_bits observed1 observed2 Q d) (range (2 ^ 16)) with
  | Ok (Some v) => Ok v
  | Ok None => Raise ValueError
  | Raise e => Raise e
  end.
Proof. reflexivity. Qed.

(** The search returns at the first accepted [high_bits], every smaller one
    having been rejected. *)
Lemma search_found (observed1 observed2 : Z) (Q : Point.t) (d n v : Z) :
  0 <= n ->
  for_loop (try_high_bits observed1 observed2 Q d) (range n) = Ok (Some v) <->
  exists high_bits, 0 <= high_bits < n
    /\ accepted observed1 observed2 Q d high_bits v
    /\ forall h, 0 <= h < high_bits -> rejected observed1 observed2 Q d h.
Proof.
  intros Hn. rewrite range_seq, for_loop_seq_found. split.
  - intros (k & Hk & Hv & Hbefore). exists (Z.of_nat k).
    split; [lia |]. split; [now apply try_high_bits_some |].
    intros h Hh. apply try_high_bits_none.
    specialize (Hbefore (Z.to_nat h) ltac:(lia)). now rewrite Z2Nat.id in Hbefore by lia.
  - intros (hb & Hhb & Ha & Hbefore). exists (Z.to_nat hb).
    rewrite Z2Nat.id by lia. split; [lia |]. split; [now apply try_high_bits_some |].
    intros j Hj. apply try_high_bits_none, Hbefore. lia.
Qed.

Lemma search_exhausted (observed1 observed2 : Z) (Q : Point.t) (d n : Z) :
  for_loop (try_high_bits observed1 observed2 Q d) (range n) = Ok None <->
  forall high_bits, 0 <= high_bits < n -> rejected observed1 observed2 Q d high_bits.
Proof.
  rewrite for_loop_exhausted. split.
  - intros H hb Hhb. apply try_high_bits_none, H, In_range, Hhb.
  - intros H i Hi. apply try_high_bits_none, H, In_range, Hi.
Qed.

Lemma search_raises (observed1 observed2 : Z) (Q : Point.t) (d n : Z) (e : exn) :
  for_loop (try_high_bits observed1 observed2 Q d) (range n) = Raise e ->
  exists high_bits, 0 <= high_bits < n
    /\ find_point_on_p256 (guess_of observed1 high_bits) = Raise e.
Proof.
  intros H. apply for_loop_raises in H. destruct H as (i & Hi & Hr).
  exists i. split; [now apply In_range | now apply try_high_bits_raise in Hr].
Qed.

Lemma predicted_output_explicit (Q : Point.t) (d : Z) (point : Point.t) :
  take4MSBytes (predicted_output Q d point)
    = (Point.x (mul (Point.x (mul d point)) Q) mod 2 ^ 240) / 2 ^ 208
  /\ take26bytes (predicted_output Q d point)
    = (Point.x (mul (Point.x (mul d point)) Q) mod 2 ^ 240) mod 2 ^ 208.
Proof.
  unfold predicted_output.
  now rewrite take4MSBytes_div, take26bytes_mod, take30bytes_mod.
Qed.

(** C4. [gen_prediction] returns [v] exactly when some [high_bits] in
    [0 .. 65535] is such that: the guess [(high_bits << 240) | observed1]
    is found on the curve; with [next] the x-coordinate of
    [(d * point).x * Q] reduced modulo [2^240], the top four bytes
    [next / 2^208] equal [observed2]; [v] is the low 26 bytes
    [next mod 2^208]; and every smaller [high_bits] was tried before and
    rejected, its guess not found on the curve or its top four bytes
    different from [observed2]. *)
Theorem gen_prediction_first_match (observed1 observed2 : Z) (P Q : Point.t) (d v : Z) :
  gen_prediction observed1 observed2 P Q d = Ok v <->
  exists high_bits point,
    0 <= high_bits < 2 ^ 16
    /\ find_point_on_p256 (Z.lor (Z.shiftl high_bits 240) observed1) = Ok (Some point)
    /\ (Point.x (mul (Point.x (mul d point)) Q) mod 2 ^ 240) / 2 ^ 208 = observed2
    /\ v = (Point.x (mul (Point.x (mul d point)) Q) mod 2 ^ 240) mod 2 ^ 208
    /\ forall h, 0 <= h < high_bits ->
         find_point_on_p256 (Z.lor (Z.shiftl h 240) observed1) = Ok None
         \/ exists pt,
              find_point_on_p256 (Z.lor (Z.shiftl h 240) observed1) = Ok (Some pt)
              /\ (Point.x (mul (Point.x (mul d pt)) Q) mod 2 ^ 240) / 2 ^ 208
                 <> observed2.
Proof.
  rewrite gen_prediction_unfold. split.
  - destruct (for_loop _ _) as [[w |] | e] eqn:L; try discriminate.
    intros [= ->]. apply search_found in L; [| lia].
    destruct L as (hb & Hhb & (point & Hp & Ht & Hv) & Hbefore).
    destruct (predicted_output_explicit Q d point) as [E4 E26].
    exists hb, point. split; [exact Hhb |]. split; [exact Hp |].
    split; [now rewrite <- E4 |]. split; [now rewrite <- E26 |].
    intros h Hh. destruct (Hbefore h Hh) as [Hn | (pt & Hpt & Hne)].
    + left. exact Hn.
    + right. exists pt. split; [exact Hpt |].
      destruct (predicted_output_explicit Q d pt) as [E4' _]. now rewrite <- E4'.
  - intros (hb & point & Hhb & Hp & Ht & Hv & Hbefore).
    destruct (predicted_output_explicit Q d point) as [E4 E26].
    assert (L : for_loop (try_high_bits observed1 observed2 Q d) (range (2 ^ 16))
                = Ok (Some v)).
    { apply search_found; [lia |]. exists hb. split; [exact Hhb |]. split.
      - exists point. split; [exact Hp |]. split; [now rewrite E4 | now rewrite E26].
      - intros h Hh. destruct (Hbefore h Hh) as [Hn | (pt & Hpt & Hne)].
        + left. exact Hn.
        + right. exists pt. split; [exact Hpt |].
          destruct (predicted_output_explicit Q d pt) as [E4' _]. now rewrite E4'. }
    now rewrite L.
Qed.

(** *** The generator as a state machine *)

Lemma genbits_eq (self : DualEC.t) :
  DualEC.genbits self =
  (DualEC.mk (next_seed (DualEC.P self) (DualEC.seed self)) (DualEC.P self) (DualEC.Q self),
   output_of (DualEC.Q self) (next_seed (DualEC.P self) (DualEC.seed self))).
Proof. reflexivity. Qed.

Lemma run_S (n : nat) (self : DualEC.t) :
  DualEC.run (S n) self =
  (fst (DualEC.run n (fst (DualEC.genbits self))),
   snd (DualEC.genbits self) :: snd (DualEC.run n (fst (DualEC.genbits self)))).
Proof.
  cbn [DualEC.run]. destruct (DualEC.genbits self) as [self1 bits].
  cbn [fst snd]. now destruct (DualEC.run n self1).
Qed.

Lemma run_outputs (n : nat) (self : DualEC.t) :
  snd (DualEC.run n self) =
  output_stream n (DualEC.seed self) (DualEC.P self) (DualEC.Q self).
Proof.
  revert self. induction n as [| n IH]; intros self; [reflexivity |].
  rewrite run_S. cbn [snd output_stream]. rewrite IH, genbits_eq. reflexivity.
Qed.

Lemma run_frame (n : nat) (self : DualEC.t) :
  DualEC.P (fst (DualEC.run n self)) = DualEC.P self
  /\ DualEC.Q (fst (DualEC.run n self)) = DualEC.Q self.
Proof.
  revert self. induction n as [| n IH]; intros self; [now split |].
  rewrite run_S. cbn [fst].
  destruct (IH (fst (DualEC.genbits self))) as [HP HQ].
  rewrite HP, HQ, genbits_eq. now split.
Qed.

Lemma run_seed (n : nat) (self : DualEC.t) :
  DualEC.seed (fst (DualEC.run n self))
  = Nat.iter n (next_seed (DualEC.P self)) (DualEC.seed self).
Proof.
  revert self. induction n as [| n IH]; intros self; [reflexivity |].
  rewrite run_S. cbn [fst]. rewrite IH, genbits_eq. cbn [fst DualEC.seed DualEC.P].
  now rewrite Nat.iter_succ_r.
Qed.

Lemma output_stream_bounded (n : nat) (seed : Z) (P Q : Point.t) :
  Forall (fun bits => 0 <= bits < 2 ^ 240) (output_stream n seed P Q).
Proof.
  revert seed. induction n as [| n IH]; intros seed; cbn [output_stream].
  - constructor.
  - constructor; [apply take30bytes_range | apply IH].
Qed.

(** C3. One call with current seed [t] computes [s = (t * P).x], stores [s]
    as the new seed, computes [r = (s * Q).x] and returns [r] masked to 240
    bits; the value returned by this call, and by each of any number of
    calls, is at least 0 and below [2^240]. *)
Theorem genbits_contract (self : DualEC.t) (n : nat) :
  let t := DualEC.seed self in
  let s := Point.x (mul t (DualEC.P self)) in
  let r := Point.x (mul s (DualEC.Q self)) in
  DualEC.seed (fst (DualEC.genbits self)) = s
  /\ snd (DualEC.genbits self) = Z.land r (2 ^ 240 - 1)
  /\ 0 <= snd (DualEC.genbits self) < 2 ^ 240
  /\ Forall (fun bits => 0 <= bits < 2 ^ 240) (snd (DualEC.run n self)).
Proof.
  cbv zeta. rewrite genbits_eq. cbn [fst snd DualEC.seed].
  split; [reflexivity |]. split; [reflexivity |].
  split; [apply take30bytes_range |].
  rewrite run_outputs. apply output_stream_bounded.
Qed.

(** C9. A call changes no attribute but the seed: [P] and [Q] are the same
    after one call and after any number of calls. *)
Theorem genbits_frame (self : DualEC.t) (n : nat) :
  DualEC.P (fst (DualEC.genbits self)) = DualEC.P self
  /\ DualEC.Q (fst (DualEC.genbits self)) = DualEC.Q self
  /\ DualEC.P (fst (DualEC.run n self)) = DualEC.P self
  /\ DualEC.Q (fst (DualEC.run n self)) = DualEC.Q self.
Proof.
  rewrite genbits_eq. cbn [fst DualEC.P DualEC.Q].
  split; [reflexivity |]. split; [reflexivity |]. apply run_frame.
Qed.

(** C8. Two machines built from the same seed and the same points return
    the same sequence of values over any number of calls, and that sequence
    is [output_stream], a function of the seed and the two points. *)
Theorem genbits_deterministic (n : nat) (self1 self2 : DualEC.t) :
  DualEC.seed self1 = DualEC.seed self2 ->
  DualEC.P self1 = DualEC.P self2 ->
  DualEC.Q self1 = DualEC.Q self2 ->
  snd (DualEC.run n self1) = snd (DualEC.run n self2)
  /\ snd (DualEC.run n self1)
     = output_stream n (DualEC.seed self1) (DualEC.P self1) (DualEC.Q self1).
Proof.
  intros Hs HP HQ. rewrite !run_outputs, Hs, HP, HQ. now split.
Qed.

(** C7, as the code has it.  After every call the seed is the whole
    x-coordinate of [seed * P]: with a provider that returns reduced
    coordinates it is a residue modulo the field prime, hence below [2^256]
    for a prime of at most 256 bits, whatever the seed was before.  It is
    not masked to 30 bytes; only the value returned is. *)
Theorem seed_is_field_element (self : DualEC.t) (n : nat) :
  reduced_x ->
  Curve.p P256 <= 2 ^ 256 ->
  DualEC.seed (fst (DualEC.genbits self))
    = Point.x (mul (DualEC.seed self) (DualEC.P self))
  /\ 0 <= DualEC.seed (fst (DualEC.genbits self)) < Curve.p P256
  /\ 0 <= DualEC.seed (fst (DualEC.run (S n) self)) < 2 ^ 256
  /\ 0 <= snd (DualEC.genbits self) < 2 ^ 240.
Proof.
  intros Hred Hp. rewrite genbits_eq. cbn [fst snd DualEC.seed].
  split; [reflexivity |]. split; [apply Hred |].
  split; [| apply take30bytes_range].
  rewrite run_seed, Nat.iter_succ. unfold next_seed at 1 3.
  pose proof (Hred (Nat.iter n (next_seed (DualEC.P self)) (DualEC.seed self))
                (DualEC.P self)) as H.
  lia.
Qed.

(** *** The backdoor construction *)

(** Whenever [gen_backdoor] returns, it returns the base point, the point
    [e * P] for the value [e] that [mod_inv] gave, and the scalar drawn, and
    the sanity check [d * Q == P] has passed. *)
Lemma gen_backdoor_returns (d d' : Z) (P Q : Point.t) :
  gen_backdoor d = Ok (P, Q, d') ->
  P = Curve.G P256 /\ d' = d
  /\ (exists e, mod_inv d (Curve.q P256) = Ok e /\ Q = mul e P)
  /\ mul d Q = P.
Proof.
  unfold gen_backdoor, backdoor_sanity_check.
  destruct (mod_inv d (Curve.q P256)) as [e | ex]; cbn [bind]; [| discriminate].
  destruct (Point.eqb _ _) eqn:E; cbn [bind]; [| discriminate].
  intros [= <- <- <-]. apply Point_eqb_eq in E.
  repeat split; try assumption. now exists e.
Qed.

(** A failed sanity check aborts the run with [AssertionError]. *)
Lemma gen_backdoor_check_fails (d e : Z) :
  mod_inv d (Curve.q P256) = Ok e ->
  mul d (mul e (Curve.G P256)) <> Curve.G P256 ->
  gen_backdoor d = Raise AssertionError.
Proof.
  intros He Hne. unfold gen_backdoor, backdoor_sanity_check. rewrite He. cbn [bind].
  destruct (Point.eqb _ _) eqn:E; [| reflexivity].
  apply Point_eqb_eq in E. contradiction.
Qed.

Lemma guess_of_true_bits (r : Z) :
  guess_of (take30bytes r) (r / 2 ^ 240) = r.
Proof.
  unfold guess_of, take30bytes. change (8 * 30) with 240.
  rewrite <- Z.shiftr_div_pow2, mask_is_ones by lia.
  rewrite <- Z.ldiff_ones_r by lia.
  apply Z.lor_ldiff_and.
Qed.

Lemma guess_of_sum (observed1 high_bits : Z) :
  0 <= observed1 < 2 ^ 240 ->
  guess_of observed1 high_bits = high_bits * 2 ^ 240 + observed1.
Proof.
  intros Ho.
  assert (Hmod : take30bytes (high_bits * 2 ^ 240 + observed1) = observed1).
  { rewrite take30bytes_mod, Z.add_comm, Z_mod_plus_full. now apply Z.mod_small. }
  assert (Hdiv : (high_bits * 2 ^ 240 + observed1) / 2 ^ 240 = high_bits).
  { rewrite Z.add_comm, Z_div_plus_full by lia. rewrite Z.div_small by lia. lia. }
  rewrite <- (guess_of_true_bits (high_bits * 2 ^ 240 + observed1)).
  now rewrite Hmod, Hdiv.
Qed.

Lemma guess_of_range (observed1 high_bits : Z) :
  0 <= observed1 < 2 ^ 240 ->
  0 <= high_bits < 2 ^ 16 ->
  0 <= guess_of observed1 high_bits < 2 ^ 256.
Proof.
  intros Ho Hh. rewrite guess_of_sum by exact Ho.
  change (2 ^ 256) with (2 ^ 16 * 2 ^ 240). nia.
Qed.



(** ** What holds once the constructor accepts the points of the curve *)

Section Constructor.
Context {claws : ConstructorLaws}.

Lemma find_point_on_p256_no_raise (x : Z) (e : exn) :
  0 <= x < 2 ^ 256 -> find_point_on_p256 x <> Raise e.
Proof.
  intros Hx H. apply find_point_on_p256_raise in H. destruct H as [Hsq Hr].
  destruct (init_accepts x (root x) Hx (sqrt_reduced _) Hsq) as (pt & Hpt).
  congruence.
Qed.






(** For a guess of at most 32 bytes, an iteration rejects it exactly when
    no point found for it predicts the observed top bytes. *)
Lemma rejected_iff (observed1 observed2 : Z) (Q : Point.t) (d high_bits : Z) :
  0 <= guess_of observed1 high_bits < 2 ^ 256 ->
  rejected observed1 observed2 Q d high_bits
  <-> forall point,
        find_point_on_p256 (guess_of observed1 high_bits) = Ok (Some point) ->
        take4MSBytes (predicted_output Q d point) <> observed2.
Proof.
  intros Hg. unfold rejected. split.
  - intros [Hn | (pt & Hpt & Hne)] point Hp.
    + rewrite Hn in Hp. discriminate Hp.
    + rewrite Hpt in Hp. injection Hp as <-. exact Hne.
  - intros H.
    destruct (find_point_on_p256 (guess_of observed1 high_bits)) as [[pt |] | e] eqn:F.
    + right. exists pt. split; [reflexivity | now apply H].
    + now left.
    + now contradiction (find_point_on_p256_no_raise _ e Hg).
Qed.

(** C5. For an observation of 30 bytes, [gen_prediction] raises exactly
    when no [high_bits] in [0, 2^16) passes both tests; the exception is
    then [ValueError], no value is returned, and the candidates tried are
    the 65536 integers of [range(2**16)] and no others. *)
Theorem gen_prediction_exhaustion (observed1 observed2 : Z) (P Q : Point.t) (d : Z) :
  0 <= observed1 < 2 ^ 240 ->
  ((exists e, gen_prediction observed1 observed2 P Q d = Raise e) <->
   (forall high_bits, 0 <= high_bits < 2 ^ 16 ->
      forall point,
        find_point_on_p256 (guess_of observed1 high_bits) = Ok (Some point) ->
        take4MSBytes (predicted_output Q d point) <> observed2))
  /\ (forall e, gen_prediction observed1 observed2 P Q d = Raise e -> e = ValueError)
  /\ ((exists v, gen_prediction observed1 observed2 P Q d = Ok v)
      \/ gen_prediction observed1 observed2 P Q d = Raise ValueError)
  /\ Z.of_nat (length (range (2 ^ 16))) = 65536
  /\ (forall i, In i (range (2 ^ 16)) <-> 0 <= i < 65536).
Proof.
  intros Ho. rewrite gen_prediction_unfold.
  pose proof (search_exhausted observed1 observed2 Q d (2 ^ 16)) as X.
  pose proof (search_raises observed1 observed2 Q d (2 ^ 16)) as NR.
  destruct (for_loop _ _) as [[w |] | e0] eqn:L.
  - split; [| split; [| split; [| split]]].
    + split; [intros (e & He); discriminate He |].
      intros H. assert (C : Ok (Some w) = Ok (@None Z)); [| discriminate C].
      apply X. intros hb Hhb. apply rejected_iff; [now apply guess_of_range |].
      now apply H.
    + discriminate.
    + left. now exists w.
    + rewrite range_length; [reflexivity | lia].
    + intros i. apply In_range.
  - split; [| split; [| split; [| split]]].
    + split; [| intros _; now exists ValueError].
      intros _ hb Hhb. apply rejected_iff; [now apply guess_of_range |].
      now apply X.
    + now intros e [= <-].
    + now right.
    + rewrite range_length; [reflexivity | lia].
    + intros i. apply In_range.
  - exfalso. destruct (NR e0 eq_refl) as (hb & Hhb & Hr).
    exact (find_point_on_p256_no_raise _ e0 (guess_of_range _ _ Ho Hhb) Hr).
Qed.

End Constructor.

End Generic.

(** ** The round trip of the backdoor, for a provider that obeys the laws
       of the curve *)

Section Laws.
Context {prov : Provider} {laws : Lawful}.

(** With an inverse of [d] modulo the order in hand, [gen_backdoor] returns
    the base point, the point [d^-1 * P] and the scalar: the sanity check
    passes. *)
Lemma gen_backdoor_of_inverse (d e : Z) :
  mod_inv d (Curve.q P256) = Ok e ->
  (d * e) mod Curve.q P256 = 1 ->
  gen_backdoor d = Ok (Curve.G P256, mul e (Curve.G P256), d)
  /\ mul d (mul e (Curve.G P256)) = Curve.G P256.
Proof.
  intros He Hde.
  assert (Hcheck : mul d (mul e (Curve.G P256)) = Curve.G P256).
  { rewrite mul_mul by apply base_valid.
    rewrite <- mul_mod_order by apply base_valid.
    rewrite Hde. apply mul_one, base_valid. }
  split; [| exact Hcheck].
  unfold gen_backdoor, backdoor_sanity_check. rewrite He. cbn [bind].
  rewrite Hcheck.
  replace (Point.eqb (Curve.G P256) (Curve.G P256)) with true
    by (symmetry; now apply Point_eqb_eq).
  reflexivity.
Qed.

(** X3.  For every scalar coprime to the order, [gen_backdoor] returns
    [(P, d^-1 * P, d)] with [P] the base point, and [d * Q = P]. *)
Theorem gen_backdoor_coprime (d : Z) :
  Z.gcd d (Curve.q P256) = 1 ->
  exists e,
    mod_inv d (Curve.q P256) = Ok e
    /\ (d * e) mod Curve.q P256 = 1
    /\ gen_backdoor d = Ok (Curve.G P256, mul e (Curve.G P256), d)
    /\ mul d (mul e (Curve.G P256)) = Curve.G P256.
Proof.
  intros Hd. destruct (mod_inv_inverse d Hd) as (e & He & Hde).
  destruct (gen_backdoor_of_inverse d e He Hde) as [Hg Hc].
  exists e. repeat split; assumption.
Qed.












End Laws.

(** ** The reference provider returns reduced coordinates *)

Section ReferenceRange.
Variable c : Curve.t.
Hypothesis p_pos : 0 < Curve.p c.

Let in_range (X : Point.t) : Prop := 0 <= Point.x X < Curve.p c.

Lemma identity_in_range : in_range Point.IDENTITY_ELEMENT.
Proof. unfold in_range. cbn. lia. Qed.

Lemma double_in_range (X : Point.t) : in_range (Reference.double c X).
Proof.
  unfold Reference.double.
  destruct (Reference.is_identity X || (Point.y X =? 0)).
  - apply identity_in_range.
  - unfold in_range. cbn [Point.x]. now apply Z.mod_pos_bound.
Qed.

Lemma add_in_range (X Y : Point.t) :
  in_range X -> in_range Y -> in_range (Reference.add c X Y).
Proof.
  intros HX HY. unfold Reference.add.
  destruct (Reference.is_identity X); [exact HY |].
  destruct (Reference.is_identity Y); [exact HX |].
  destruct (Point.x X =? Point.x Y).
  - destruct (Point.y X =? Point.y Y);
      [apply double_in_range | apply identity_in_range].
  - unfold in_range. cbn [Point.x]. now apply Z.mod_pos_bound.
Qed.

Lemma mul_pos_in_range (k : positive) (X : Point.t) :
  in_range X -> in_range (Reference.mul_pos c k X).
Proof.
  intros HX. induction k as [k IH | k IH |]; cbn [Reference.mul_pos].
  - apply add_in_range; [exact HX | apply double_in_range].
  - apply double_in_range.
  - exact HX.
Qed.

Lemma reference_mul_x_range (k : Z) (X : Point.t) :
  0 <= Point.x (Reference.mul c k X) < Curve.p c.
Proof.
  unfold Reference.mul. destruct (k mod Curve.q c).
  - apply identity_in_range.
  - apply mul_pos_in_range. unfold in_range, Reference.normalize. cbn [Point.x].
    now apply Z.mod_pos_bound.
  - apply identity_in_range.
Qed.

Lemma pow_mod_range (a : Z) (e : positive) :
  0 <= Reference.pow_mod a e (Curve.p c) < Curve.p c.
Proof.
  destruct e; cbn [Reference.pow_mod]; cbv zeta; now apply Z.mod_pos_bound.
Qed.

Lemma mod_sqrt_range (a : Z) : 0 <= Reference.mod_sqrt c a < Curve.p c.
Proof.
  unfold Reference.mod_sqrt, Reference.power_mod.
  destruct ((Curve.p c + 1) / 4);
    [now apply Z.mod_pos_bound | apply pow_mod_range | now apply Z.mod_pos_bound].
Qed.

Lemma is_point_on_curve_iff (x y : Z) :
  Reference.is_point_on_curve c x y = true
  <-> (y * y) mod Curve.p c = (x * x * x - 3 * x + Curve.b c) mod Curve.p c.
Proof.
  unfold Reference.is_point_on_curve. rewrite Z.eqb_eq. split.
  - intros H. rewrite <- (Z.sub_add (x * x * x - 3 * x + Curve.b c) (y * y)) at 1.
    rewrite Z.add_mod, H, Z.add_0_l, Z.mod_mod by lia. reflexivity.
  - intros H. rewrite Zminus_mod, H, Z.sub_diag. now apply Z.mod_0_l, Z.neq_sym, Z.lt_neq.
Qed.

(** The reference constructor obeys the laws of the constructor, for a
    field prime of at most 256 bits. *)
Lemma reference_constructor_laws (inv : Z -> Z -> result Z) :
  Curve.p c <= 2 ^ 256 ->
  ConstructorLaws (prov := Reference.provider_with c inv).
Proof.
  intros Hp.
  assert (Hfits : forall x y, 0 <= x < 2 ^ 256 -> 0 <= y < Curve.p c ->
            (0 <=? x) && (x <? 2 ^ 256) && (0 <=? y) && (y <? 2 ^ 256) = true).
  { intros x y Hx Hy. rewrite !andb_true_iff, !Z.leb_le, !Z.ltb_lt. lia. }
  constructor.
  - intros a. apply mod_sqrt_range.
  - intros x y Hx Hy Hsq.
    unfold rhs in Hsq. cbn [P256 Reference.provider_with] in Hsq.
    apply is_point_on_curve_iff in Hsq.
    cbn [Point_init Reference.provider_with]. unfold Reference.point_init.
    rewrite (Hfits x y Hx Hy), Hsq. now eexists.
  - intros x y Hx Hy Hsq.
    unfold rhs in Hsq. cbn [P256 Reference.provider_with] in Hsq, Hx, Hy.
    apply is_point_on_curve_iff in Hsq.
    cbn [Point_init Reference.provider_with]. unfold Reference.point_init.
    rewrite (Hfits x y ltac:(lia) Hy), Hsq.
    now rewrite !Z.mod_small by lia.
  - intros x y pt.
    cbn [Point_init Reference.provider_with]. unfold Reference.point_init.
    destruct ((0 <=? x) && (x <? 2 ^ 256) && (0 <=? y) && (y <? 2 ^ 256));
      [| discriminate].
    destruct (Reference.is_point_on_curve c x y) eqn:E; [| discriminate].
    intros [= <-]. apply is_point_on_curve_iff in E.
    unfold curve_equation. cbn [Point.x Point.y].
    pose proof (rhs_periodic (prov := Reference.provider_with c inv) x (- (x / Curve.p c)))
      as R.
    unfold rhs in R. cbn [P256 Reference.provider_with] in R |- *.
    replace (x + - (x / Curve.p c) * Curve.p c) with (x mod Curve.p c) in R
      by (rewrite Z.mod_eq by lia; ring).
    rewrite R, <- E. symmetry. apply Z.mul_mod. lia.
Qed.

End ReferenceRange.

(** ** Facts about P-256 *)

Section P256Facts.
Import NistP256.

(** The constants fit together: the prime has the NIST form and is 3 modulo
    4, the order lies in the Hasse interval around [p + 1], and the base
    point satisfies the curve equation. *)
Lemma nist_constants :
  NistP256.p = 2 ^ 256 - 2 ^ 224 + 2 ^ 192 + 2 ^ 96 - 1
  /\ NistP256.p mod 4 = 3
  /\ (NistP256.p + 1 - NistP256.q) ^ 2 <= 4 * NistP256.p
  /\ Reference.is_point_on_curve NistP256.curve NistP256.gx NistP256.gy = true.
Proof. vm_compute. repeat split. discriminate. Qed.

(** The membership test on P-256 with the closed-form square root: the
    x-coordinate of the base point gives the base point back, 0 is the
    x-coordinate of a point of the curve, and [p - 1] is not. *)
Example membership_test_on_p256 :
  find_point_on_p256 (prov := NistP256.provider) gx = Ok (Some G)
  /\ find_point_on_p256 (prov := NistP256.provider) 0
     = Ok (Some (Point.mk 0
         0x66485c780e2f83d72433bd5d84a06bb6541c2af31dae871728bf856a174f93f4))
  /\ find_point_on_p256 (prov := NistP256.provider) (p - 1) = Ok None.
Proof. vm_compute. repeat split. Qed.

Lemma nist_reduced_x : reduced_x (prov := NistP256.provider).
Proof.
  intros k X. apply reference_mul_x_range. reflexivity.
Qed.

Lemma nist_mul_order (inv : Z -> Z -> result Z) (X : Point.t) :
  mul (Provider := NistP256.provider_with inv) q X = Point.IDENTITY_ELEMENT.
Proof.
  cbn [mul NistP256.provider_with Reference.provider_with].
  unfold Reference.mul. cbn [Curve.q curve]. now rewrite Z.mod_same.
Qed.

Lemma nist_constructor_laws (inv : Z -> Z -> result Z) :
  ConstructorLaws (prov := NistP256.provider_with inv).
Proof.
  apply reference_constructor_laws; [reflexivity | vm_compute; discriminate].
Qed.



Lemma gen_prediction_exhaustion_witness :
  ((exists e, gen_prediction (prov := NistP256.provider) 5 7 G G 3 = Raise e) <->
   (forall high_bits, 0 <= high_bits < 2 ^ 16 ->
      forall point,
        find_point_on_p256 (prov := NistP256.provider) (guess_of 5 high_bits)
        = Ok (Some point) ->
        take4MSBytes (predicted_output (prov := NistP256.provider) G 3 point) <> 7))
  /\ (forall e, gen_prediction (prov := NistP256.provider) 5 7 G G 3 = Raise e ->
        e = ValueError)
  /\ ((exists v, gen_prediction (prov := NistP256.provider) 5 7 G G 3 = Ok v)
      \/ gen_prediction (prov := NistP256.provider) 5 7 G G 3 = Raise ValueError)
  /\ Z.of_nat (length (range (2 ^ 16))) = 65536
  /\ (forall i, In i (range (2 ^ 16)) <-> 0 <= i < 65536).
Proof.
  apply (gen_prediction_exhaustion (prov := NistP256.provider)
           (claws := nist_constructor_laws Reference.mod_inv) 5 7 G G 3).
  split; [discriminate | reflexivity].
Defined.

(** C7, counterexample.  A generator over P-256 with [P] the base point and
    seed 1 (a seed of 30 bytes) holds, after one call, the x-coordinate of
    the base point as its seed, which is not below [2^240]. *)
Lemma seed_exceeds_30_bytes :
  0 <= DualEC.seed (DualEC.mk 1 G G) < 2 ^ 240
  /\ DualEC.seed (fst (DualEC.genbits (prov := NistP256.provider) (DualEC.mk 1 G G)))
     = NistP256.gx
  /\ ~ (DualEC.seed (fst (DualEC.genbits (prov := NistP256.provider) (DualEC.mk 1 G G)))
        < 2 ^ 240).
Proof.
  rewrite genbits_eq. cbn [fst DualEC.seed DualEC.P]. unfold next_seed.
  assert (E : Point.x (mul (Provider := NistP256.provider) 1 G) = NistP256.gx)
    by (vm_compute; reflexivity).
  rewrite E. vm_compute. repeat split; discriminate.
Qed.

Lemma seed_is_field_element_witness :
  DualEC.seed (fst (DualEC.genbits (prov := NistP256.provider) (DualEC.mk 1 G G)))
    = Point.x (mul (Provider := NistP256.provider) 1 G)
  /\ 0 <= DualEC.seed (fst (DualEC.genbits (prov := NistP256.provider) (DualEC.mk 1 G G)))
       < NistP256.p
  /\ 0 <= DualEC.seed (fst (DualEC.run (prov := NistP256.provider) 3 (DualEC.mk 1 G G)))
       < 2 ^ 256
  /\ 0 <= snd (DualEC.genbits (prov := NistP256.provider) (DualEC.mk 1 G G)) < 2 ^ 240.
Proof.
  apply (seed_is_field_element (prov := NistP256.provider) (DualEC.mk 1 G G) 2).
  - exact nist_reduced_x.
  - vm_compute. discriminate.
Defined.

(** C2, at the upper end of the range.  [randint(2, q)] may draw [q] itself.
    With [mod_inv] failing on arguments that are not coprime, the run aborts
    inside [mod_inv]; and whatever [mod_inv] did there, the run would not
    return: any value it gave is multiplied into a point that [q] sends to
    the identity element, so the sanity check fails. *)
Theorem gen_backdoor_aborts_at_order :
  randint 2 q q
  /\ gen_backdoor (prov := NistP256.provider) q = Raise Exception
  /\ forall (inv : Z -> Z -> result Z) (r : Point.t * Point.t * Z),
       gen_backdoor (prov := NistP256.provider_with inv) q <> Ok r.
Proof.
  split; [| split].
  - unfold randint. vm_compute. split; discriminate.
  - vm_compute. reflexivity.
  - intros inv r. unfold gen_backdoor, backdoor_sanity_check.
    cbn [mod_inv NistP256.provider_with Reference.provider_with P256 Curve.q curve].
    destruct (inv q q) as [e | ex]; cbn [bind]; [| discriminate].
    rewrite nist_mul_order.
    replace (Point.eqb Point.IDENTITY_ELEMENT (Curve.G curve)) with false
      by (vm_compute; reflexivity).
    cbn [bind]. discriminate.
Qed.

Lemma genbits_deterministic_witness :
  snd (DualEC.run (prov := NistP256.provider) 2 (DualEC.mk 1 G G))
  = snd (DualEC.run (prov := NistP256.provider) 2 (DualEC.mk 1 G G))
  /\ snd (DualEC.run (prov := NistP256.provider) 2 (DualEC.mk 1 G G))
     = output_stream (prov := NistP256.provider) 2 1 G G.
Proof.
  apply (genbits_deterministic (prov := NistP256.provider) 2
           (DualEC.mk 1 G G) (DualEC.mk 1 G G)); reflexivity.
Defined.

End P256Facts.

(** ** The small curve obeys the laws *)

Section ToyLaws.
Import Toy.

Lemma toy_valid_iff (X : Point.t) : valid (prov := provider) X <-> validb X = true.
Proof.
  unfold valid, curve_equation, validb.
  cbn [P256 provider Reference.provider Reference.provider_with Curve.p Curve.b curve].
  rewrite !andb_true_iff, !Z.leb_le, !Z.ltb_lt, Z.eqb_eq. tauto.
Qed.

Lemma all_points_spec (f : Point.t -> bool) :
  all_points f = true -> forall X, valid (prov := provider) X -> f X = true.
Proof.
  intros H X V. pose proof V as (Hx & Hy & _).
  cbn [P256 provider Reference.provider Reference.provider_with Curve.p curve] in Hx, Hy.
  apply toy_valid_iff in V.
  pose proof (forallb_range _ _ (forallb_range _ _ H (Point.x X) Hx) (Point.y X) Hy) as E.
  cbv beta in E. destruct X as [x y]. cbn [Point.x Point.y] in E.
  now rewrite V in E.
Qed.

Lemma all_scalars_spec (f : Z -> bool) :
  all_scalars f = true -> forall k, f (k mod 11) = true.
Proof.
  intros H k. apply (forallb_range _ _ H). now apply Z.mod_pos_bound.
Qed.

Lemma tmul_mod (k : Z) (X : Point.t) : tmul (k mod 11) X = tmul k X.
Proof.
  unfold tmul, Reference.mul. cbn [Curve.q curve]. now rewrite Z.mod_mod.
Qed.

Lemma toy_mul_closed (k : Z) (X : Point.t) :
  valid (prov := provider) X ->
  valid (prov := provider) (tmul k X) \/ tmul k X = Point.IDENTITY_ELEMENT.
Proof.
  intros V. rewrite <- tmul_mod.
  assert (C : all_scalars (fun k => all_points (fun X =>
            validb (tmul k X) || Point.eqb (tmul k X) Point.IDENTITY_ELEMENT)) = true)
    by (vm_compute; reflexivity).
  pose proof (all_points_spec _ (all_scalars_spec _ C k) X V) as E.
  cbv beta in E. apply orb_true_iff in E. destruct E as [E | E].
  - left. now apply toy_valid_iff.
  - right. now apply Point_eqb_eq.
Qed.

Lemma toy_mul_identity (k : Z) :
  tmul k Point.IDENTITY_ELEMENT = Point.IDENTITY_ELEMENT.
Proof.
  rewrite <- tmul_mod.
  assert (C : all_scalars (fun k =>
            Point.eqb (tmul k Point.IDENTITY_ELEMENT) Point.IDENTITY_ELEMENT) = true)
    by (vm_compute; reflexivity).
  apply Point_eqb_eq. exact (all_scalars_spec _ C k).
Qed.

Lemma toy_mul_one (X : Point.t) : valid (prov := provider) X -> tmul 1 X = X.
Proof.
  intros V.
  assert (C : all_points (fun X => Point.eqb (tmul 1 X) X) = true)
    by (vm_compute; reflexivity).
  apply Point_eqb_eq. exact (all_points_spec _ C X V).
Qed.

Lemma toy_mul_mul (a b : Z) (X : Point.t) :
  valid (prov := provider) X -> tmul a (tmul b X) = tmul (a * b) X.
Proof.
  intros V.
  rewrite <- (tmul_mod a), <- (tmul_mod b), <- (tmul_mod (a * b)), Z.mul_mod by lia.
  assert (C : all_scalars (fun a => all_scalars (fun b => all_points (fun X =>
            Point.eqb (tmul a (tmul b X)) (tmul ((a * b) mod 11) X)))) = true)
    by (vm_compute; reflexivity).
  apply Point_eqb_eq.
  exact (all_points_spec _ (all_scalars_spec _ (all_scalars_spec _ C a) b) X V).
Qed.

Lemma toy_mul_same_x (k : Z) (X Y : Point.t) :
  valid (prov := provider) X -> valid (prov := provider) Y ->
  Point.x X = Point.x Y ->
  Point.x (tmul k X) = Point.x (tmul k Y).
Proof.
  intros VX VY E. rewrite <- (tmul_mod k X), <- (tmul_mod k Y).
  assert (C : all_scalars (fun k => all_points (fun X => all_points (fun Y =>
            implb (Point.x X =? Point.x Y)
                  (Point.x (tmul k X) =? Point.x (tmul k Y))))) = true)
    by (vm_compute; reflexivity).
  pose proof (all_points_spec _ (all_points_spec _ (all_scalars_spec _ C k) X VX) Y VY) as H.
  cbv beta in H. apply Z.eqb_eq in E. rewrite E in H. now apply Z.eqb_eq.
Qed.

Lemma toy_sqrt_of_square (y : Z) :
  0 <= Reference.mod_sqrt curve ((y * y) mod 7) < 7
  /\ (Reference.mod_sqrt curve ((y * y) mod 7)
      * Reference.mod_sqrt curve ((y * y) mod 7)) mod 7 = (y * y) mod 7.
Proof.
  rewrite Z.mul_mod by lia.
  assert (C : forallb (fun y =>
            let r := Reference.mod_sqrt curve ((y * y) mod 7) in
            (0 <=? r) && (r <? 7) && ((r * r) mod 7 =? (y * y) mod 7)) (range 7) = true)
    by (vm_compute; reflexivity).
  pose proof (forallb_range _ _ C (y mod 7) ltac:(now apply Z.mod_pos_bound)) as H.
  cbv beta zeta in H. rewrite !andb_true_iff, Z.leb_le, Z.ltb_lt, Z.eqb_eq in H.
  rewrite <- (Z.mul_mod y y 7) in * by lia. tauto.
Qed.

Lemma toy_mod_inv_inverse (d : Z) :
  Z.gcd d 11 = 1 ->
  exists e, Reference.mod_inv d 11 = Ok e /\ (d * e) mod 11 = 1.
Proof.
  intros Hg.
  assert (C : all_scalars (fun d =>
            implb (Z.gcd d 11 =? 1)
              match Reference.mod_inv d 11 with
              | Ok e => (d * e) mod 11 =? 1
              | Raise _ => false
              end) = true)
    by (vm_compute; reflexivity).
  pose proof (all_scalars_spec _ C d) as H. cbv beta in H.
  rewrite Z.gcd_mod, Z.gcd_comm, Hg in H by lia. cbn [Z.eqb Pos.eqb implb] in H.
  assert (M : Reference.mod_inv (d mod 11) 11 = Reference.mod_inv d 11).
  { unfold Reference.mod_inv. now rewrite Z.mod_mod. }
  rewrite M in H. destruct (Reference.mod_inv d 11) as [e | ex]; [| discriminate].
  exists e. split; [reflexivity |].
  apply Z.eqb_eq in H. now rewrite Z.mul_mod_idemp_l in H.
Qed.

Lemma toy_lawful : Lawful (prov := provider).
Proof.
  constructor.
  - apply reference_constructor_laws; [reflexivity | vm_compute; discriminate].
  - cbn. lia.
  - apply toy_valid_iff. reflexivity.
  - intros V. apply toy_valid_iff in V. discriminate V.
  - exact toy_mul_closed.
  - exact toy_mul_identity.
  - exact toy_mul_one.
  - exact toy_mul_mul.
  - intros k X _. exact (tmul_mod k X).
  - exact toy_mul_same_x.
  - exact toy_sqrt_of_square.
  - exact toy_mod_inv_inverse.
Qed.

End ToyLaws.

(** ** The theorems at work on the small curve: [d = 3], whose inverse
       modulo 11 is 4, and seed 1 *)

Section ToyRuns.
Import Toy.


Lemma gen_backdoor_coprime_witness :
  exists e,
    mod_inv (Provider := provider) 3 11 = Ok e
    /\ (3 * e) mod 11 = 1
    /\ gen_backdoor (prov := provider) 3 = Ok (P, tmul e P, 3)
    /\ tmul 3 (tmul e P) = P.
Proof.
  apply (gen_backdoor_coprime (prov := provider) (laws := toy_lawful) 3).
  reflexivity.
Defined.





(** The driver run on the small curve, for every seed from 1 to 10 and
    [d = 3]: predicted and actual bytes agree. *)
Example toy_main_runs :
  map (main (prov := provider) 3) [1; 2; 3; 4; 5; 6; 7; 8; 9; 10]
  = [Ok (6, 6); Ok (4, 4); Ok (5, 5); Ok (4, 4); Ok (5, 5);
     Ok (5, 5); Ok (4, 4); Ok (5, 5); Ok (4, 4); Ok (6, 6)].
Proof. vm_compute. reflexivity. Qed.

(** On the small curve too, the upper end of [randint(2, q)] aborts the
    construction, and every other draw succeeds. *)
Example toy_backdoor_draws :
  map (fun d => match gen_backdoor (prov := provider) d with
                | Ok _ => true
                | Raise _ => false
                end) [2; 3; 4; 5; 6; 7; 8; 9; 10; 11]
  = [true; true; true; true; true; true; true; true; true; false].
Proof. vm_compute. reflexivity. Qed.

End ToyRuns.

(** ** Further properties of the truncation helpers and of the guess *)

(** X6.  For every integer, of any size and sign: the top bytes glued above
    the low 26 bytes give the integer back; the low 26 bytes of the low 30
    bytes are the low 26 bytes; masking to 30 bytes twice is masking once;
    and the top bytes of a 30-byte truncation are the low 4 bytes of the
    top bytes. *)
Theorem truncation_all_integers (x : Z) :
  Z.lor (Z.shiftl (take4MSBytes x) 208) (take26bytes x) = x
  /\ take26bytes (take30bytes x) = take26bytes x
  /\ take30bytes (take30bytes x) = take30bytes x
  /\ take4MSBytes (take30bytes x) = Z.land (take4MSBytes x) (2 ^ 32 - 1).
Proof.
  split; [| split; [| split]].
  - unfold take4MSBytes, take26bytes. change (8 * 26) with 208.
    rewrite mask_is_ones, <- Z.ldiff_ones_r by lia.
    apply Z.lor_ldiff_and.
  - unfold take26bytes, take30bytes. rewrite <- Z.land_assoc. f_equal.
  - unfold take30bytes. rewrite <- Z.land_assoc. f_equal.
  - unfold take4MSBytes, take30bytes. rewrite Z.shiftr_land. f_equal.
Qed.

(** X7.  For a 30-byte [observed1] and 16 high bits, the guess of line 78 is
    [high_bits * 2^240 + observed1]: its low 30 bytes are [observed1], its
    bits from 240 up are [high_bits], and it is below [2^256]. *)
Theorem guess_decomposition (observed1 high_bits : Z) :
  0 <= observed1 < 2 ^ 240 ->
  0 <= high_bits < 2 ^ 16 ->
  guess_of observed1 high_bits = high_bits * 2 ^ 240 + observed1
  /\ take30bytes (guess_of observed1 high_bits) = observed1
  /\ Z.shiftr (guess_of observed1 high_bits) 240 = high_bits
  /\ 0 <= guess_of observed1 high_bits < 2 ^ 256.
Proof.
  intros Ho Hh.
  assert (Hmod : take30bytes (high_bits * 2 ^ 240 + observed1) = observed1).
  { rewrite take30bytes_mod, Z.add_comm, Z_mod_plus_full. now apply Z.mod_small. }
  assert (Hdiv : (high_bits * 2 ^ 240 + observed1) / 2 ^ 240 = high_bits).
  { rewrite Z.add_comm, Z_div_plus_full by lia. rewrite Z.div_small by lia. lia. }
  assert (E : guess_of observed1 high_bits = high_bits * 2 ^ 240 + observed1).
  { rewrite <- (guess_of_true_bits (high_bits * 2 ^ 240 + observed1)).
    now rewrite Hmod, Hdiv. }
  rewrite E. repeat split; try assumption; try lia.
  rewrite Z.shiftr_div_pow2 by lia. exact Hdiv.
Qed.

Lemma guess_decomposition_witness :
  guess_of 5 3 = 3 * 2 ^ 240 + 5
  /\ take30bytes (guess_of 5 3) = 5
  /\ Z.shiftr (guess_of 5 3) 240 = 3
  /\ 0 <= guess_of 5 3 < 2 ^ 256.
Proof.
  apply (guess_decomposition 5 3); vm_compute; split; (discriminate || reflexivity).
Defined.

(** ** Further properties that hold for every provider *)

Section Coverage.
Context {prov : Provider}.

(** X8.  The membership test sees its argument only modulo the field prime,
    the constructor does not: for [x + k * p] the root is the root for [x],
    the function returns [None] exactly when it does for [x], and when the
    test passes the constructor is handed [x + k * p] itself, not reduced,
    with the root for [x]. *)
Theorem find_point_on_p256_periodic (x k : Z) :
  root (x + k * Curve.p P256) = root x
  /\ (find_point_on_p256 (x + k * Curve.p P256) = Ok None
      <-> find_point_on_p256 x = Ok None)
  /\ find_point_on_p256 (x + k * Curve.p P256)
     = if rhs x =? (root x * root x) mod Curve.p P256
       then pt <- Point_init (x + k * Curve.p P256) (root x) ;; Ok (Some pt)
       else Ok None.
Proof.
  assert (R : root (x + k * Curve.p P256) = root x)
    by (unfold root; now rewrite rhs_periodic).
  split; [exact R |]. split.
  - now rewrite !find_point_on_p256_none, R, rhs_periodic.
  - now rewrite find_point_on_p256_unfold, R, rhs_periodic.
Qed.

Lemma predicted_output_range (Q : Point.t) (d : Z) (point : Point.t) :
  0 <= predicted_output Q d point < 2 ^ 240.
Proof. apply take30bytes_range. Qed.

Lemma top_bytes_range (x : Z) : 0 <= x < 2 ^ 240 -> 0 <= take4MSBytes x < 2 ^ 32.
Proof.
  intros Hx. rewrite take4MSBytes_div. split.
  - apply Z.div_pos; lia.
  - apply Z.div_lt_upper_bound; lia.
Qed.

Lemma gen_prediction_ok_inv (observed1 observed2 : Z) (P Q : Point.t) (d v : Z) :
  gen_prediction observed1 observed2 P Q d = Ok v ->
  exists high_bits, 0 <= high_bits < 2 ^ 16
    /\ accepted observed1 observed2 Q d high_bits v.
Proof.
  rewrite gen_prediction_unfold.
  destruct (for_loop _ _) as [[w |] | e] eqn:L; try discriminate.
  intros [= ->]. apply search_found in L; [| lia].
  destruct L as (hb & Hhb & Hacc & _). now exists hb.
Qed.

(** X9.  Whenever [gen_prediction] returns [v]: [v] is a 26-byte integer,
    [observed2] was a 4-byte integer, and [observed2] glued above [v] is the
    whole 30-byte output predicted from a guess that passed the membership
    test. *)
Theorem gen_prediction_result_bytes (observed1 observed2 : Z) (P Q : Point.t) (d v : Z) :
  gen_prediction observed1 observed2 P Q d = Ok v ->
  0 <= v < 2 ^ 208
  /\ 0 <= observed2 < 2 ^ 32
  /\ exists high_bits point,
       0 <= high_bits < 2 ^ 16
       /\ find_point_on_p256 (guess_of observed1 high_bits) = Ok (Some point)
       /\ Z.lor (Z.shiftl observed2 208) v = predicted_output Q d point.
Proof.
  intros H. apply gen_prediction_ok_inv in H.
  destruct H as (hb & Hhb & point & Hp & Ho & ->).
  pose proof (predicted_output_range Q d point) as Hr.
  split; [| split].
  - unfold take26bytes. apply land_mask_range. lia.
  - rewrite <- Ho. now apply top_bytes_range.
  - exists hb, point. split; [exact Hhb |]. split; [exact Hp |].
    rewrite <- Ho.
    unfold take4MSBytes, take26bytes. change (8 * 26) with 208.
    rewrite mask_is_ones, <- Z.ldiff_ones_r by lia.
    apply Z.lor_ldiff_and.
Qed.

(** No candidate is accepted against an [observed2] that is not a 4-byte
    integer. *)
Lemma wide_observed2_rejected (observed1 observed2 : Z) (Q : Point.t) (d high_bits v : Z) :
  observed2 < 0 \/ 2 ^ 32 <= observed2 ->
  ~ accepted observed1 observed2 Q d high_bits v.
Proof.
  intros Hw (point & _ & Ho & _).
  pose proof (top_bytes_range _ (predicted_output_range Q d point)) as Hr. lia.
Qed.

(** X11.  The outcomes of [gen_backdoor]: a triple it returns has the base
    point as [P], the point [e * P] for the value [e] of [mod_inv] as [Q],
    the scalar drawn as [d], and satisfies [d * Q = P]; it raises either the
    exception of [mod_inv] or, when [d * (e * P)] is not [P],
    [AssertionError]. *)
Theorem gen_backdoor_outcomes (d : Z) :
  (forall P Q d', gen_backdoor d = Ok (P, Q, d') ->
     P = Curve.G P256 /\ d' = d /\ mul d Q = P
     /\ exists e, mod_inv d (Curve.q P256) = Ok e /\ Q = mul e P)
  /\ (forall ex, gen_backdoor d = Raise ex ->
        mod_inv d (Curve.q P256) = Raise ex
        \/ (ex = AssertionError
            /\ exists e, mod_inv d (Curve.q P256) = Ok e
                 /\ mul d (mul e (Curve.G P256)) <> Curve.G P256)).
Proof.
  split.
  - intros P Q d' H. apply gen_backdoor_returns in H.
    destruct H as (HP & Hd & He & Hc). repeat split; assumption.
  - intros ex. unfold gen_backdoor, backdoor_sanity_check.
    destruct (mod_inv d (Curve.q P256)) as [e | ex'] eqn:He; cbn [bind].
    + destruct (Point.eqb _ _) eqn:E; cbn [bind]; [discriminate |].
      intros [= <-]. right. split; [reflexivity |]. exists e. split; [reflexivity |].
      intros C. apply Point_eqb_eq in C. congruence.
    + intros [= <-]. now left.
Qed.


(** X13.  The point [Q] never reaches the state: the seed after any number
    of calls is the same whatever [Q] the object was built with; it is the
    seed advanced [n] times through [P]. *)
Theorem seed_independent_of_Q (n : nat) (seed : Z) (P Q Q' : Point.t) :
  DualEC.seed (fst (DualEC.run n (DualEC.mk seed P Q)))
  = DualEC.seed (fst (DualEC.run n (DualEC.mk seed P Q')))
  /\ DualEC.seed (fst (DualEC.run n (DualEC.mk seed P Q)))
     = Nat.iter n (fun s => Point.x (mul s P)) seed.
Proof.
  rewrite !run_seed. cbn [DualEC.seed DualEC.P]. now split.
Qed.

Section CoverageConstructor.
Context {claws : ConstructorLaws}.

(** X10.  An [observed2] that is not a 4-byte integer matches no candidate:
    [gen_prediction] returns no value, and for an observation of 30 bytes
    it raises [ValueError] after the whole search. *)
Theorem gen_prediction_wide_observed2 (observed1 observed2 : Z) (P Q : Point.t) (d : Z) :
  observed2 < 0 \/ 2 ^ 32 <= observed2 ->
  (forall v, gen_prediction observed1 observed2 P Q d <> Ok v)
  /\ (0 <= observed1 < 2 ^ 240 ->
      gen_prediction observed1 observed2 P Q d = Raise ValueError).
Proof.
  intros Hw.
  assert (No : forall v, gen_prediction observed1 observed2 P Q d <> Ok v).
  { intros v H. apply gen_prediction_ok_inv in H. destruct H as (hb & _ & Hacc).
    exact (wide_observed2_rejected _ _ _ _ _ _ Hw Hacc). }
  split; [exact No |]. intros Ho.
  destruct (gen_prediction_exhaustion observed1 observed2 P Q d Ho)
    as (_ & _ & [(v & Hv) | Hr] & _).
  - now contradiction (No v).
  - exact Hr.
Qed.

(** X14.  The outcomes of the driver: a failure of [gen_backdoor] is the
    driver's failure; any other failure is the [ValueError] of the search;
    and the two values it yields are 26-byte integers. *)
Theorem main_outcomes (d seed : Z) :
  (forall ex, gen_backdoor d = Raise ex -> main d seed = Raise ex)
  /\ (forall ex, main d seed = Raise ex ->
        gen_backdoor d = Raise ex \/ ex = ValueError)
  /\ (forall predicted actual, main d seed = Ok (predicted, actual) ->
        0 <= predicted < 2 ^ 208 /\ 0 <= actual < 2 ^ 208
        /\ exists P Q, gen_backdoor d = Ok (P, Q, d)).
Proof.
  unfold main.
  destruct (gen_backdoor d) as [[[P Q] d'] | ex0] eqn:Hg; cbn [bind].
  - pose proof (gen_backdoor_returns _ _ _ _ Hg) as (_ & -> & _ & _).
    rewrite !genbits_eq. cbn [DualEC.seed DualEC.P DualEC.Q].
    set (bits1 := output_of Q (next_seed P seed)).
    set (bits2 := output_of Q (next_seed P (next_seed P seed))).
    split; [discriminate |]. split.
    + intros ex. destruct (gen_prediction _ _ _ _ _) as [v | e] eqn:Hp; cbn [bind];
        [discriminate |].
      intros [= <-]. right.
      assert (Hb : 0 <= bits1 < 2 ^ 240) by apply take30bytes_range.
      destruct (gen_prediction_exhaustion bits1 (Z.shiftr bits2 (26 * 8)) P Q d Hb)
        as (_ & HV & _).
      now apply HV.
    + intros predicted actual.
      destruct (gen_prediction _ _ _ _ _) as [v | e] eqn:Hp; cbn [bind];
        [| discriminate].
      intros [= <- <-]. apply gen_prediction_ok_inv in Hp.
      destruct Hp as (hb & _ & point & _ & _ & ->).
      split; [| split].
      * unfold take26bytes. apply land_mask_range. lia.
      * apply (land_mask_range bits2 (8 * 26)). lia.
      * now exists P, Q.
  - split; [now intros ex [= <-] |]. split; [| discriminate].
    intros ex [= <-]. now left.
Qed.

End CoverageConstructor.

End Coverage.

(** ** Further properties under the laws of the curve *)

Section CoverageLaws.
Context {prov : Provider} {laws : Lawful}.

(** X15.  The docstring of [find_point_on_p256], for [x] of at most 32
    bytes: if some [y] puts [x] on the curve, the function returns a point
    which satisfies the curve equation, the point [(x, root)] when [x] is
    below [p]; if no [y] does, it returns [None], and that for every
    integer [x]. *)
Theorem find_point_on_p256_docstring (x : Z) :
  (0 <= x < 2 ^ 256 ->
   (exists y, curve_equation (Point.mk x y)) ->
     exists pt, find_point_on_p256 x = Ok (Some pt)
       /\ curve_equation pt
       /\ (x < Curve.p P256 -> pt = Point.mk x (root x)))
  /\ ((forall y, ~ curve_equation (Point.mk x y)) ->
      find_point_on_p256 x = Ok None).
Proof.
  split.
  - intros Hx (y & Hy). unfold curve_equation in Hy. cbn [Point.x Point.y] in Hy.
    destruct (sqrt_of_square y) as [_ Hsq].
    assert (E : rhs x = (y * y) mod Curve.p P256) by (unfold rhs; now rewrite Hy).
    assert (Hroot : (root x * root x) mod Curve.p P256 = rhs x)
      by (unfold root; now rewrite E, Hsq).
    destruct (init_accepts x (root x) Hx (sqrt_reduced _) Hroot) as (pt & Hpt).
    exists pt. split; [| split].
    + apply find_point_on_p256_some. now split.
    + exact (init_on_curve _ _ _ Hpt).
    + intros Hp. assert (Hxp : 0 <= x < Curve.p P256) by lia.
      rewrite (init_reduced x (root x) Hxp (sqrt_reduced _) Hroot) in Hpt.
      now injection Hpt as <-.
  - intros Hno. apply find_point_on_p256_none. intros E.
    apply (Hno (root x)). unfold curve_equation. cbn [Point.x Point.y].
    exact E.
Qed.



End CoverageLaws.

(** ** The further properties at work on the small curve *)

Section CoverageRuns.
Import Toy.

Lemma gen_prediction_result_bytes_witness :
  0 <= 5 < 2 ^ 208
  /\ 0 <= 0 < 2 ^ 32
  /\ exists high_bits point,
       0 <= high_bits < 2 ^ 16
       /\ find_point_on_p256 (prov := provider) (guess_of 4 high_bits) = Ok (Some point)
       /\ Z.lor (Z.shiftl 0 208) 5 = predicted_output (prov := provider) Q 3 point.
Proof.
  apply (gen_prediction_result_bytes (prov := provider) 4 0 P Q 3 5).
  vm_compute. reflexivity.
Defined.

Lemma gen_prediction_wide_observed2_witness :
  (forall v, gen_prediction (prov := provider) 4 (2 ^ 32) P Q 3 <> Ok v)
  /\ (0 <= 4 < 2 ^ 240 ->
      gen_prediction (prov := provider) 4 (2 ^ 32) P Q 3 = Raise ValueError).
Proof.
  apply (gen_prediction_wide_observed2 (prov := provider)
           (claws := constructor_laws (Lawful := toy_lawful)) 4 (2 ^ 32) P Q 3).
  right. vm_compute. discriminate.
Defined.

Lemma main_outcomes_witness :
  (forall ex, gen_backdoor (prov := provider) 3 = Raise ex ->
     main (prov := provider) 3 1 = Raise ex)
  /\ (forall ex, main (prov := provider) 3 1 = Raise ex ->
        gen_backdoor (prov := provider) 3 = Raise ex \/ ex = ValueError)
  /\ (forall predicted actual, main (prov := provider) 3 1 = Ok (predicted, actual) ->
        0 <= predicted < 2 ^ 208 /\ 0 <= actual < 2 ^ 208
        /\ exists P Q, gen_backdoor (prov := provider) 3 = Ok (P, Q, 3)).
Proof.
  exact (main_outcomes (prov := provider)
           (claws := constructor_laws (Lawful := toy_lawful)) 3 1).
Defined.

Lemma find_point_on_p256_docstring_witness :
  (0 <= 4 < 2 ^ 256 ->
   (exists y, curve_equation (prov := provider) (Point.mk 4 y)) ->
     exists pt, find_point_on_p256 (prov := provider) 4 = Ok (Some pt)
       /\ curve_equation (prov := provider) pt
       /\ (4 < Curve.p (P256 (Provider := provider)) ->
           pt = Point.mk 4 (root (prov := provider) 4)))
  /\ ((forall y, ~ curve_equation (prov := provider) (Point.mk 4 y)) ->
      find_point_on_p256 (prov := provider) 4 = Ok None).
Proof.
  exact (find_point_on_p256_docstring (prov := provider) (laws := toy_lawful) 4).
Defined.


(** On the small curve, from seed 2: the outputs of five calls, and the
    state the predictor recovers from the first of them. *)
Example toy_recovery :
  snd (DualEC.run (prov := provider) 5 (DualEC.mk 2 P Q)) = [5; 4; 5; 4; 5]
  /\ Point.x (mul (Provider := provider) 3 (candidate_point (prov := provider) 5 0))
     = DualEC.seed (fst (DualEC.run (prov := provider) 2 (DualEC.mk 2 P Q))).
Proof. vm_compute. split; reflexivity. Qed.

End CoverageRuns.
